(** * list-plugins.py: the plugin classifier of nixvim's dev tooling

    A shallow embedding of [flake-modules/dev/list-plugins.py] and the
    properties of its classification engine.

    Python [str] values are modelled by [string]: a sequence of characters,
    here the bytes of the UTF-8 encoding.  All patterns of the program are
    ASCII, and byte-wise comparison of UTF-8 text orders strings as Python
    orders code points, so nothing in the program tells the two apart. *)

From Stdlib Require Import String Ascii List Bool Lia.
From stdpp Require Import base option list gmap strings sorting.

Local Open Scope string_scope.
Local Open Scope list_scope.

(** ** Strings *)

Module Str.

Abbreviation chars := list_ascii_of_string.
Abbreviation of_chars := string_of_list_ascii.

(** [sub in s] of Python: [sub] occurs in [s] as a contiguous run. *)
Fixpoint contains (sub s : string) : bool :=
  String.prefix sub s ||
  match s with
  | EmptyString => false
  | String _ s' => contains sub s'
  end.

(** [s.lower()] on ASCII text. *)
Definition lower_char (c : ascii) : ascii :=
  let n := nat_of_ascii c in
  if (65 <=? n)%nat && (n <=? 90)%nat then ascii_of_nat (n + 32) else c.

Fixpoint lower (s : string) : string :=
  match s with
  | EmptyString => EmptyString
  | String c s' => String (lower_char c) (lower s')
  end.

(** The specification of [contains]: a decomposition of the text. *)
Definition occurs_in (sub s : string) : Prop :=
  exists pre post : string, s = pre +:+ sub +:+ post.

End Str.

(** ** Regular expressions

    The part of Python's [re] module the program uses: patterns built from
    literal characters, [.], [*] and [+], compiled with or without
    [re.DOTALL], and [re.match], which looks for a match starting at the
    first character of the text (the match need not reach its end).  The
    matcher runs on Brzozowski derivatives; [Void] and [Alt] only arise as
    derivatives. *)

Module Re.

Inductive regex : Type :=
| Void
| Eps
| Chr (c : ascii)
| Dot
| Cat (r1 r2 : regex)
| Alt (r1 r2 : regex)
| Star (r : regex)
| Plus (r : regex).

(** A run of literal characters. *)
Fixpoint Lit (s : string) : regex :=
  match s with
  | EmptyString => Eps
  | String c s' => Cat (Chr c) (Lit s')
  end.

(** A compiled pattern: [re.compile(source, flags)]. *)
Record Pattern : Type := compile { pat_regex : regex; pat_dotall : bool }.

Definition newline : ascii := ascii_of_nat 10.

Section Matching.

Variable dotall : bool.

(** [.] matches every character under [re.DOTALL], and every character
    but the newline otherwise. *)
Definition dot_matches (c : ascii) : bool :=
  dotall || negb (Ascii.eqb c newline).

Fixpoint nullable (r : regex) : bool :=
  match r with
  | Void => false
  | Eps => true
  | Chr _ => false
  | Dot => false
  | Cat r1 r2 => nullable r1 && nullable r2
  | Alt r1 r2 => nullable r1 || nullable r2
  | Star _ => true
  | Plus r1 => nullable r1
  end.

Fixpoint deriv (c : ascii) (r : regex) : regex :=
  match r with
  | Void => Void
  | Eps => Void
  | Chr d => if Ascii.eqb c d then Eps else Void
  | Dot => if dot_matches c then Eps else Void
  | Cat r1 r2 =>
      Alt (Cat (deriv c r1) r2) (if nullable r1 then deriv c r2 else Void)
  | Alt r1 r2 => Alt (deriv c r1) (deriv c r2)
  | Star r1 => Cat (deriv c r1) (Star r1)
  | Plus r1 => Cat (deriv c r1) (Star r1)
  end.

(** Some prefix of the text is matched by [r]. *)
Fixpoint match_prefix (r : regex) (w : list ascii) : bool :=
  nullable r ||
  match w with
  | [] => false
  | c :: w' => match_prefix (deriv c r) w'
  end.

(** The words a pattern denotes. *)
Inductive lang : regex -> list ascii -> Prop :=
| lang_Eps : lang Eps []
| lang_Chr c : lang (Chr c) [c]
| lang_Dot c : dot_matches c = true -> lang Dot [c]
| lang_Cat r1 r2 u v : lang r1 u -> lang r2 v -> lang (Cat r1 r2) (u ++ v)
| lang_AltL r1 r2 u : lang r1 u -> lang (Alt r1 r2) u
| lang_AltR r1 r2 u : lang r2 u -> lang (Alt r1 r2) u
| lang_Star_nil r : lang (Star r) []
| lang_Star_app r u v :
    lang r u -> lang (Star r) v -> lang (Star r) (u ++ v)
| lang_Plus r u v : lang r u -> lang (Star r) v -> lang (Plus r) (u ++ v).

End Matching.

(** [re.match(pattern, string)], read as a truth value. *)
Definition re_match (p : Pattern) (s : string) : bool :=
  match_prefix (pat_dotall p) (pat_regex p) (Str.chars s).

End Re.

(** ** The program *)

Definition QUESTION_MARK : string := "❔".

Definition EXCLUDES : list string :=
  [ (* Not plugin files *)
    "TEMPLATE.nix";
    "colorschemes/base16/theme-list.nix";
    "deprecations.nix";
    "helpers.nix";
    "plugins/by-name/dap/dapHelpers.nix";
    "plugins/by-name/efmls-configs/packages.nix";
    "plugins/by-name/gitsigns/options.nix";
    "plugins/by-name/hydra/hydras-option.nix";
    "plugins/by-name/hydra/settings-options.nix";
    "plugins/by-name/neogit/options.nix";
    "plugins/by-name/neotest/adapters-list.nix";
    "plugins/by-name/neotest/adapters.nix";
    "plugins/by-name/neotest/options.nix";
    "plugins/by-name/none-ls/_mk-source-plugin.nix";
    "plugins/by-name/none-ls/packages.nix";
    "plugins/by-name/none-ls/prettier.nix";
    "plugins/by-name/none-ls/prettierd.nix";
    "plugins/by-name/none-ls/settings.nix";
    "plugins/by-name/none-ls/sources.nix";
    "plugins/by-name/rustaceanvim/renamed-options.nix";
    "plugins/by-name/rustaceanvim/settings-options.nix";
    "plugins/by-name/startify/options.nix";
    "plugins/by-name/telescope/extensions/_mk-extension.nix";
    "plugins/by-name/telescope/extensions/default.nix";
    "plugins/cmp/auto-enable.nix";
    "plugins/cmp/options/";
    "plugins/cmp/sources/cmp-fish.nix";
    "plugins/cmp/sources/default.nix";
    "plugins/default.nix";
    "plugins/deprecation.nix";
    "plugins/lsp/language-servers/";
    "plugins/lsp/lsp-packages.nix" ].

Inductive Kind : Type := NEOVIM | VIM | MISC.

Inductive State : Type := UNKNOWN | NEW | OLD.

(** [kind.name] and [state.name], the identifiers of the enumeration
    members, and [state.value]. *)
Definition Kind_name (k : Kind) : string :=
  match k with
  | NEOVIM => "NEOVIM"
  | VIM => "VIM"
  | MISC => "MISC"
  end.

Definition State_name (s : State) : string :=
  match s with
  | UNKNOWN => "UNKNOWN"
  | NEW => "NEW"
  | OLD => "OLD"
  end.

Definition State_value (s : State) : string :=
  match s with
  | UNKNOWN => QUESTION_MARK
  | NEW => "✅"
  | OLD => "❌"
  end.

(** A dict display [{k1: v1, ...}]: the pairs are stored from left to
    right, a later pair replacing an earlier one with the same key. *)
Definition dict_of {V : Type} (items : list (string * V)) : gmap string V :=
  foldl (fun d kv => <[ fst kv := snd kv ]> d) ∅ items.

(** The literal part of [KNOWN_PATHS]; a triple holds the style, the kind
    and whether the file has deprecation warnings. *)
Definition KNOWN_PATHS_literal : gmap string (State * Kind * bool) :=
  dict_of
    [ ("plugins/by-name/chadtree/default.nix", (OLD, NEOVIM, false));
      ("plugins/by-name/coq-thirdparty/default.nix", (OLD, NEOVIM, false));
      ("plugins/by-name/dap/default.nix", (OLD, NEOVIM, false));
      ("plugins/by-name/gitmessenger/default.nix", (OLD, VIM, false));
      ("plugins/by-name/intellitab/default.nix", (OLD, VIM, false));
      ("plugins/by-name/leap/default.nix", (OLD, NEOVIM, false));
      ("plugins/by-name/lint/default.nix", (OLD, NEOVIM, false));
      ("plugins/by-name/lspkind/default.nix", (OLD, NEOVIM, false));
      ("plugins/by-name/nix-develop/default.nix", (OLD, NEOVIM, false));
      ("plugins/by-name/openscad/default.nix", (OLD, VIM, false));
      ("plugins/by-name/plantuml-syntax/default.nix", (OLD, VIM, false));
      ("plugins/by-name/rainbow-delimiters/default.nix", (OLD, NEOVIM, false));
      ("plugins/by-name/treesitter-refactor/default.nix", (OLD, MISC, true));
      ("plugins/by-name/treesitter-textobjects/default.nix", (OLD, NEOVIM, true));
      ("plugins/by-name/vim-bbye/default.nix", (OLD, VIM, false));
      ("plugins/by-name/vim-matchup/default.nix", (OLD, VIM, false));
      ("plugins/colorschemes/base16/default.nix", (NEW, VIM, true));
      ("plugins/lsp/default.nix", (NEW, MISC, false)) ].

(** The dict the module-level loop iterates, in insertion order. *)
Definition telescope_extensions : list (string * bool) :=
  [ ("file-browser", true);
    ("frecency", true);
    ("fzf-native", true);
    ("fzy-native", true);
    ("live-greps-args", false);
    ("manix", false);
    ("media-files", true);
    ("ui-select", false);
    ("undo", true) ].

(** [KNOWN_PATHS] once the module-level loop has added the telescope
    extensions. *)
Definition KNOWN_PATHS : gmap string (State * Kind * bool) :=
  foldl
    (fun d item =>
       let '(telescope_extension_name, has_depr_warnings) := item in
       <[ "plugins/by-name/telescope/extensions/" +:+
          telescope_extension_name +:+ ".nix"
          := (NEW, MISC, has_depr_warnings) ]> d)
    KNOWN_PATHS_literal telescope_extensions.

(** [DEPRECATION_REGEX]: for each marker the pattern [.*marker], compiled
    with [re.DOTALL].  The markers hold letters only, so each stands for
    itself in the pattern. *)
Definition DEPRECATION_REGEX : list Re.Pattern :=
  map (fun pattern => Re.compile (Re.Cat (Re.Star Re.Dot) (Re.Lit pattern)) true)
    [ "deprecateExtra";
      "mkRemovedOptionModule";
      "mkRenamedOptionModule";
      "optionsRenamedToSettings" ].

Record Plugin : Type := {
  path : string;
  state : State;
  kind : Kind;
  dep_warnings : bool
}.

(** The escape character [\033], and the two icon-font glyphs of the kind
    column (private-use code points U+F36F and U+E62B) as their UTF-8
    bytes. *)
Definition ESC : string := String (ascii_of_nat 27) EmptyString.

Definition NEOVIM_GLYPH : string :=
  Str.of_chars (map ascii_of_nat [239; 141; 175]%nat).

Definition VIM_GLYPH : string :=
  Str.of_chars (map ascii_of_nat [238; 152; 171]%nat).

(** [Plugin.__str__]; the kinds are a closed enumeration, so the
    [assert False] of the fall-through case is out of reach. *)
Definition Plugin_str (self : Plugin) : string :=
  let state_icon := State_value (state self) in
  let kind_icon :=
    match kind self with
    | NEOVIM => (ESC +:+ "[94m") +:+ " " +:+ NEOVIM_GLYPH
    | VIM => (ESC +:+ "[92m") +:+ " " +:+ VIM_GLYPH
    | MISC => (ESC +:+ "[92m") +:+ "🟢"
    end in
  let deprecation_icon := if dep_warnings self then "⚠️ " else "  " in
  "| " +:+ kind_icon +:+ ESC +:+ "[0m  | " +:+ state_icon +:+ "  | " +:+
  deprecation_icon +:+ " | " +:+ path self.

(** The line [Plugin.print_markdown] prints. *)
Definition markdown_line (self : Plugin) : string :=
  "- [ ] " +:+ path self +:+ " (" +:+ Str.lower (Kind_name (kind self)) +:+ ")".

(** The loop returns [True] at the first pattern that matches. *)
Definition has_deprecation_warnings (string : string) : bool :=
  existsb (fun regex => Re.re_match regex string) DEPRECATION_REGEX.

(** ** Effects

    The program reads files, lists a directory tree and prints lines, and
    it can stop on an exception.  A computation runs in an environment (the
    file system, which the program never changes) and threads the lines
    printed so far. *)

Inductive Exn : Type :=
| OSError
| UnboundLocalError (name : string)
| AttributeError.

Inductive Result (A : Type) : Type :=
| Return (a : A)
| Raise (e : Exn).

Arguments Return {A} a.
Arguments Raise {A} e.

Record Env : Type := {
  (* [glob.glob(pathname, recursive=True)]: the paths found, in the order
     the directory scan yields them *)
  glob_result : string -> list string;
  (* the text of a file; [None] when it cannot be opened or read *)
  file_text : string -> option string
}.

Definition M (A : Type) : Type := Env -> list string -> Result A * list string.

#[export] Instance M_ret : MRet M :=
  fun A a _ out => (Return a, out).

#[export] Instance M_bind : MBind M :=
  fun A B f m env out =>
    match m env out with
    | (Return a, out') => f a env out'
    | (Raise e, out') => (Raise e, out')
    end.

Definition raise {A : Type} (e : Exn) : M A :=
  fun _ out => (Raise e, out).

Definition print (line : string) : M unit :=
  fun _ out => (Return tt, out ++ [line]).

(** [with open(path, "r") as f: f.read()] *)
Definition read_text (path : string) : M string :=
  fun env out =>
    match file_text env path with
    | Some text => (Return text, out)
    | None => (Raise OSError, out)
    end.

Definition glob (pathname : string) : M (list string) :=
  fun env out => (Return (glob_result env pathname), out).

(** Reading a local variable: one that was declared but never assigned
    raises [UnboundLocalError]. *)
Definition load_local {A : Type} (name : string) (v : option A) : M A :=
  match v with
  | Some a => mret a
  | None => raise (UnboundLocalError name)
  end.

Fixpoint for_each {A : Type} (l : list A) (body : A -> M unit) : M unit :=
  match l with
  | [] => mret tt
  | x :: l' => body x ;; for_each l' body
  end.

Definition print_markdown (self : Plugin) : M unit :=
  print (markdown_line self).

(** ** Classification *)

Definition parse_file (path : string) : M (option Plugin) :=
  file_content ← read_text path;
  match KNOWN_PATHS !! path with
  | Some props =>
      mret (Some {| path := path;
                    state := props.1.1;
                    kind := props.1.2;
                    dep_warnings := props.2 |})
  | None =>
      let state := UNKNOWN in
      let kind : option Kind := None in
      let '(kind, state) :=
        if Re.re_match
             (Re.compile (Re.Cat (Re.Star Re.Dot) (Re.Lit "mkNeovimPlugin")) true)
             file_content
        then (Some NEOVIM, NEW)
        else if Re.re_match
                  (Re.compile
                     (Re.Cat (Re.Star Re.Dot)
                        (Re.Cat (Re.Lit "require")
                           (Re.Cat (Re.Plus Re.Dot) (Re.Lit "setup")))) true)
                  file_content
        then (Some NEOVIM, OLD)
        else if Re.re_match
                  (Re.compile (Re.Cat (Re.Star Re.Dot) (Re.Lit "mkVimPlugin")) true)
                  file_content
        then (Some VIM, NEW)
        else (kind, state) in
      kind ← load_local "kind" kind;
      mret (Some {| path := path;
                    state := state;
                    kind := kind;
                    dep_warnings := has_deprecation_warnings file_content |})
  end.

(** The loop returns [False] at the first exclusion pattern that occurs in
    the path, and [True] when none does. *)
Definition _is_excluded (path : string) : bool :=
  negb (existsb (fun exclude_pattern => Str.contains exclude_pattern path) EXCLUDES).

Record Args : Type := {
  args_kind : option string;
  args_state : option string;
  args_deprecation_warnings : bool;
  args_markdown : bool
}.

Definition main (args : Args) : M unit :=
  paths ← glob "plugins/**/*.nix";
  let filtered_paths := List.filter _is_excluded paths in
  let filtered_paths := merge_sort String.le filtered_paths in
  (if negb (args_markdown args) then
     print "| Typ | Sty | DW | path";;
     print "|-----|-----|----|--------------------------------------------------------"
   else mret tt);;
  for_each filtered_paths (fun plugin_path =>
    plugin ← parse_file plugin_path;
    match plugin with
    | Some plugin =>
        if match args_kind args with
           | None => true
           | Some k => String.eqb (Str.lower (Kind_name (kind plugin))) k
           end
           && match args_state args with
              | None => true
              | Some s => String.eqb (Str.lower (State_name (state plugin))) s
              end
           && (negb (args_deprecation_warnings args) || dep_warnings plugin)
        then
          if args_markdown args then print_markdown plugin
          else print (Plugin_str plugin)
        else mret tt
    | None => mret tt
    end).

(** The members of the two enumerations in definition order, as iterating
    [Kind] and [State] yields them, and the [choices] of the [--kind] and
    [--state] options built from them. *)
Definition Kind_members : list Kind := [ NEOVIM; VIM; MISC ].

Definition State_members : list State := [ UNKNOWN; NEW; OLD ].

Definition kind_choices : list string :=
  map (fun k => Str.lower (Kind_name k)) Kind_members.

Definition state_choices : list string :=
  map (fun s => Str.lower (State_name s)) State_members.

(** ** Vocabulary of the properties *)

(** The legacy idiom: [require], at least one character, then [setup]. *)
Definition legacy_idiom (text : string) : Prop :=
  exists pre gap post : string,
    gap <> EmptyString /\
    text = pre +:+ "require" +:+ gap +:+ "setup" +:+ post.

(** What [parse_file] returns or raises on a path; it prints nothing. *)
Definition parse_result (env : Env) (p : string) : Result (option Plugin) :=
  fst (parse_file p env []).

(** The paths [main] iterates: the glob result, filtered, then sorted. *)
Definition filtered_paths (env : Env) : list string :=
  merge_sort String.le
    (List.filter _is_excluded (glob_result env "plugins/**/*.nix")).

(** The condition under which the loop of [main] prints a record. *)
Definition passes_filters (args : Args) (plugin : Plugin) : bool :=
  match args_kind args with
  | None => true
  | Some k => String.eqb (Str.lower (Kind_name (kind plugin))) k
  end
  && match args_state args with
     | None => true
     | Some s => String.eqb (Str.lower (State_name (state plugin))) s
     end
  && (negb (args_deprecation_warnings args) || dep_warnings plugin).

(** The line printed for a record, in either output mode. *)
Definition render (args : Args) (plugin : Plugin) : string :=
  if args_markdown args then markdown_line plugin else Plugin_str plugin.

Definition header (args : Args) : list string :=
  if negb (args_markdown args) then
    [ "| Typ | Sty | DW | path";
      "|-----|-----|----|--------------------------------------------------------" ]
  else [].

(** The records obtained from the paths of [l], in order, up to the first
    path on which [parse_file] raises. *)
Fixpoint classified (env : Env) (l : list string) : list Plugin :=
  match l with
  | [] => []
  | p :: l' =>
      match parse_result env p with
      | Return (Some plugin) => plugin :: classified env l'
      | Return None => classified env l'
      | Raise _ => []
      end
  end.

(** How the loop over [l] ends: normally, or with the first exception. *)
Fixpoint loop_outcome (env : Env) (l : list string) : Result unit :=
  match l with
  | [] => Return tt
  | p :: l' =>
      match parse_result env p with
      | Return _ => loop_outcome env l'
      | Raise e => Raise e
      end
  end.

(** The records a run prints. *)
Definition printed (args : Args) (env : Env) : list Plugin :=
  List.filter (passes_filters args) (classified env (filtered_paths env)).

(** [main] with the [if plugin is not None] guard removed: the loop body
    reads the attributes of whatever [parse_file] returned, which raises
    [AttributeError] on [None]. *)
Definition main_unguarded (args : Args) : M unit :=
  paths ← glob "plugins/**/*.nix";
  let filtered_paths := List.filter _is_excluded paths in
  let filtered_paths := merge_sort String.le filtered_paths in
  (if negb (args_markdown args) then
     print "| Typ | Sty | DW | path";;
     print "|-----|-----|----|--------------------------------------------------------"
   else mret tt);;
  for_each filtered_paths (fun plugin_path =>
    plugin ← parse_file plugin_path;
    plugin ← match plugin with
             | Some plugin => mret plugin
             | None => raise AttributeError
             end;
    if match args_kind args with
       | None => true
       | Some k => String.eqb (Str.lower (Kind_name (kind plugin))) k
       end
       && match args_state args with
          | None => true
          | Some s => String.eqb (Str.lower (State_name (state plugin))) s
          end
       && (negb (args_deprecation_warnings args) || dep_warnings plugin)
    then
      if args_markdown args then print_markdown plugin
      else print (Plugin_str plugin)
    else mret tt).

(** ** Sample inputs *)

(** A tree with one readable file that is not in [KNOWN_PATHS] and whose
    text has none of the three markers. *)
Definition env_unmatched : Env := {|
  glob_result := fun _ => [ "plugins/by-name/foo/default.nix" ];
  file_text := fun _ => Some "{ lib, ... }: { }"
|}.

(** Every file reads as a text with all three markers and a deprecation
    marker. *)
Definition env_all_markers : Env := {|
  glob_result := fun _ =>
    [ "plugins/lsp/default.nix"; "plugins/by-name/foo/default.nix" ];
  file_text := fun _ =>
    Some "require('foo').setup{} mkVimPlugin mkNeovimPlugin mkRemovedOptionModule"
|}.

(** A legacy file whose idiom spans two lines, and a Vim plugin. *)
Definition env_legacy_vim : Env := {|
  glob_result := fun _ => [ "plugins/by-name/l/default.nix"; "plugins/by-name/v/default.nix" ];
  file_text := fun p =>
    if String.eqb p "plugins/by-name/l/default.nix"
    then Some ("require('l')" +:+ String Re.newline ".setup()")
    else Some "helpers.vim-plugin.mkVimPlugin { }"
|}.

(** The two paths of the ordering example, found in descending order. *)
Definition env_two_paths : Env := {|
  glob_result := fun _ => [ "b/x.ext"; "a/y.ext" ];
  file_text := fun _ => Some "mkNeovimPlugin"
|}.

(** No file can be read. *)
Definition env_unreadable : Env := {|
  glob_result := fun _ => [ "plugins/lsp/default.nix" ];
  file_text := fun _ => None
|}.

(** Three plugins: Neovim and modern, Neovim and legacy, Vim and modern. *)
Definition env_three : Env := {|
  glob_result := fun _ =>
    [ "plugins/by-name/p1/default.nix"; "plugins/by-name/p2/default.nix";
      "plugins/by-name/p3/default.nix" ];
  file_text := fun p =>
    if String.eqb p "plugins/by-name/p1/default.nix"
    then Some "mkNeovimPlugin"
    else if String.eqb p "plugins/by-name/p2/default.nix"
    then Some "require('p2').setup()"
    else Some "mkVimPlugin"
|}.

Definition args_default : Args := {|
  args_kind := None;
  args_state := None;
  args_deprecation_warnings := false;
  args_markdown := false
|}.

Definition args_markdown_only : Args := {|
  args_kind := None;
  args_state := None;
  args_deprecation_warnings := false;
  args_markdown := true
|}.

Definition args_neovim_new : Args := {|
  args_kind := Some "neovim";
  args_state := Some "new";
  args_deprecation_warnings := false;
  args_markdown := true
|}.

(** Equality on the enumerations is decidable. *)
#[export] Instance Kind_eq_dec : EqDecision Kind.
Proof. solve_decision. Defined.

#[export] Instance State_eq_dec : EqDecision State.
Proof. solve_decision. Defined.

(** ** Facts about strings *)

Module StrFacts.

Import Str.

Lemma app_cons (c : ascii) (a b : string) :
  String c a +:+ b = String c (a +:+ b).
Proof. reflexivity. Qed.

Lemma app_nil (b : string) : EmptyString +:+ b = b.
Proof. reflexivity. Qed.

Lemma chars_app (a b : string) : chars (a +:+ b) = chars a ++ chars b.
Proof. induction a as [|c a IH]; simpl; [reflexivity | now rewrite IH]. Qed.

Lemma of_chars_app (u v : list ascii) :
  of_chars (u ++ v) = of_chars u +:+ of_chars v.
Proof. induction u as [|c u IH]; simpl; [reflexivity | now rewrite IH]. Qed.

Lemma chars_inj (a b : string) : chars a = chars b -> a = b.
Proof.
  intros H. rewrite <- (string_of_list_ascii_of_string a),
    <- (string_of_list_ascii_of_string b). now rewrite H.
Qed.

Lemma prefix_true (p s : string) :
  String.prefix p s = true <-> exists post, s = p +:+ post.
Proof.
  revert s. induction p as [|c p IH]; intros s.
  - destruct s; simpl; (split; [intros _; eexists; reflexivity | reflexivity]).
  - destruct s as [|d s]; simpl.
    + split; [discriminate | intros [post H]; discriminate].
    + destruct (ascii_dec c d) as [->|Hne].
      * rewrite IH. split; intros [post H]; exists post;
          rewrite ?app_cons in *; congruence.
      * split; [discriminate |].
        intros [post H]. rewrite app_cons in H. congruence.
Qed.

Lemma contains_nil (sub : string) :
  contains sub EmptyString = String.prefix sub EmptyString || false.
Proof. reflexivity. Qed.

Lemma contains_cons (sub : string) (c : ascii) (s : string) :
  contains sub (String c s) = String.prefix sub (String c s) || contains sub s.
Proof. reflexivity. Qed.

Lemma contains_true (sub s : string) :
  contains sub s = true <-> occurs_in sub s.
Proof.
  unfold occurs_in. induction s as [|c s IH].
  - rewrite contains_nil, orb_false_r, prefix_true. split.
    + intros [post H]. now exists EmptyString, post.
    + intros [[|d pre] [post H]]; [now exists post | discriminate].
  - rewrite contains_cons, orb_true_iff, prefix_true, IH. split.
    + intros [[post H] | (pre & post & H)].
      * now exists EmptyString, post.
      * exists (String c pre), post. rewrite app_cons. now rewrite H.
    + intros [[|d pre] [post H]].
      * left. now exists post.
      * right. exists pre, post. rewrite app_cons in H. congruence.
Qed.

Lemma contains_false (sub s : string) :
  contains sub s = false <-> ~ occurs_in sub s.
Proof.
  rewrite <- contains_true. now destruct (contains sub s).
Qed.

End StrFacts.

(** ** Facts about the matcher *)

Module ReFacts.

Import Re.

Create HintDb re.
#[export] Hint Constructors lang : re.

Section Correctness.

Variable dotall : bool.

Lemma nullable_lang_nil (r : regex) :
  nullable r = true -> lang dotall r [].
Proof.
  induction r; simpl; intros H; try discriminate; auto with re.
  - apply andb_true_iff in H as [H1 H2].
    change (@nil ascii) with (@nil ascii ++ []). auto with re.
  - apply orb_true_iff in H as [H|H]; auto with re.
  - change (@nil ascii) with (@nil ascii ++ []). auto with re.
Qed.

Lemma lang_nullable (r : regex) (w : list ascii) :
  lang dotall r w -> w = [] -> nullable r = true.
Proof.
  induction 1; simpl; intros E; try discriminate; auto.
  - apply app_eq_nil in E as [-> ->]. now rewrite IHlang1, IHlang2.
  - now rewrite IHlang.
  - rewrite IHlang; auto using orb_true_r.
  - apply app_eq_nil in E as [-> ->]. auto.
Qed.

Lemma nullable_spec (r : regex) :
  nullable r = true <-> lang dotall r [].
Proof.
  split; [apply nullable_lang_nil | intros H; eapply lang_nullable; eauto].
Qed.

Lemma deriv_sound (c : ascii) (r : regex) :
  forall w, lang dotall (deriv dotall c r) w -> lang dotall r (c :: w).
Proof.
  induction r; simpl; intros w H.
  - inversion H.
  - inversion H.
  - destruct (Ascii.eqb_spec c c0) as [->|Hne]; inversion H; subst.
    constructor.
  - destruct (dot_matches dotall c) eqn:Hd; inversion H; subst.
    now constructor.
  - inversion H as [| | | | ? ? ? H1 | ? ? ? H1 | | |]; subst.
    + inversion H1 as [| | |? ? u v Hu Hv | | | | |]; subst.
      change (c :: u ++ v) with ((c :: u) ++ v). auto with re.
    + destruct (nullable r1) eqn:Hn; [| inversion H1].
      change (c :: w) with ([] ++ c :: w).
      constructor; [now apply nullable_lang_nil | auto].
  - inversion H; subst; auto with re.
  - inversion H as [| | |? ? u v Hu Hv | | | | |]; subst.
    change (c :: u ++ v) with ((c :: u) ++ v). auto with re.
  - inversion H as [| | |? ? u v Hu Hv | | | | |]; subst.
    change (c :: u ++ v) with ((c :: u) ++ v). auto with re.
Qed.

Lemma deriv_complete (c : ascii) (r : regex) (w' : list ascii) :
  lang dotall r w' ->
  forall w, w' = c :: w -> lang dotall (deriv dotall c r) w.
Proof.
  induction 1 as
    [ | d | d Hd | r1 r2 u v H1 IH1 H2 IH2 | r1 r2 u H1 IH1
    | r1 r2 u H2 IH2 | r | r u v H1 IH1 H2 IH2 | r u v H1 IH1 H2 IH2 ];
    intros w E; simpl.
  - discriminate.
  - injection E as -> <-. rewrite Ascii.eqb_refl. constructor.
  - injection E as -> <-. rewrite Hd. constructor.
  - destruct u as [|a u]; simpl in E.
    + subst v. apply lang_AltR.
      rewrite (lang_nullable _ _ H1 eq_refl). auto.
    + injection E as -> <-. apply lang_AltL. auto with re.
  - auto with re.
  - auto with re.
  - discriminate.
  - destruct u as [|a u]; simpl in E.
    + subst v. apply (IH2 w eq_refl).
    + injection E as -> <-. auto with re.
  - destruct u as [|a u]; simpl in E.
    + subst v. apply (IH2 w eq_refl).
    + injection E as -> <-. auto with re.
Qed.

Lemma deriv_spec (c : ascii) (r : regex) (w : list ascii) :
  lang dotall (deriv dotall c r) w <-> lang dotall r (c :: w).
Proof.
  split; [apply deriv_sound | intros H; eapply deriv_complete; eauto].
Qed.

(** [match_prefix] decides whether a prefix of the text is in the
    language of the pattern. *)
Lemma match_prefix_spec (w : list ascii) :
  forall r,
    match_prefix dotall r w = true <->
    exists u v, w = u ++ v /\ lang dotall r u.
Proof.
  induction w as [|c w IH]; intros r; simpl.
  - rewrite orb_false_r, nullable_spec. split.
    + intros H. now exists [], [].
    + intros (u & v & E & H). symmetry in E.
      apply app_eq_nil in E as [-> ->]. exact H.
  - rewrite orb_true_iff, nullable_spec, IH. split.
    + intros [H | (u & v & -> & H)].
      * now exists [], (c :: w).
      * exists (c :: u), v. split; [reflexivity | now apply deriv_spec].
    + intros ([|a u] & v & E & H); simpl in E.
      * now left.
      * injection E as <- ->. right. exists u, v.
        split; [reflexivity | now apply deriv_spec].
Qed.

Lemma lang_Lit (p : string) (w : list ascii) :
  lang dotall (Lit p) w <-> w = Str.chars p.
Proof.
  revert w. induction p as [|c p IH]; intros w; simpl.
  - split; [now inversion 1 | intros ->; constructor].
  - split.
    + inversion 1 as [| | |? ? u v Hu Hv | | | | |]; subst.
      inversion Hu; subst. apply IH in Hv. now subst.
    + intros ->. change (c :: Str.chars p) with ([c] ++ Str.chars p).
      constructor; [constructor | now apply IH].
Qed.

End Correctness.

(** Under [re.DOTALL], [.*] matches every text and [.+] every text that
    is not empty. *)
Lemma lang_Star_Dot (w : list ascii) : lang true (Star Dot) w.
Proof.
  induction w as [|c w IH]; [constructor |].
  change (c :: w) with ([c] ++ w). constructor; [now constructor | exact IH].
Qed.

Lemma lang_Plus_Dot (w : list ascii) : lang true (Plus Dot) w <-> w <> [].
Proof.
  split.
  - inversion 1 as [| | | | | | | |? u v Hu Hv]; subst.
    inversion Hu; subst. discriminate.
  - destruct w as [|c w]; [congruence | intros _].
    change (c :: w) with ([c] ++ w).
    constructor; [now constructor | apply lang_Star_Dot].
Qed.

(** A search pattern [.*marker] under [re.DOTALL] matches exactly the texts
    in which the marker occurs. *)
Lemma re_match_marker (marker s : string) :
  re_match (compile (Cat (Star Dot) (Lit marker)) true) s = true <->
  Str.occurs_in marker s.
Proof.
  unfold re_match, Str.occurs_in. simpl. rewrite match_prefix_spec. split.
  - intros (u & v & E & H).
    inversion H as [| | |? ? a b Ha Hb | | | | |]; subst.
    apply lang_Lit in Hb. subst b.
    exists (Str.of_chars a), (Str.of_chars v). apply StrFacts.chars_inj.
    rewrite !StrFacts.chars_app, !list_ascii_of_string_of_list_ascii, E.
    now rewrite <- app_assoc.
  - intros (pre & post & ->).
    exists (Str.chars pre ++ Str.chars marker), (Str.chars post). split.
    + rewrite !StrFacts.chars_app. now rewrite <- app_assoc.
    + constructor; [apply lang_Star_Dot | now apply lang_Lit].
Qed.

Lemma chars_nil (s : string) : Str.chars s = [] <-> s = EmptyString.
Proof. destruct s; simpl; split; congruence. Qed.

Lemma lang_Cat_iff (dotall : bool) (r1 r2 : regex) (w : list ascii) :
  lang dotall (Cat r1 r2) w <->
  exists u v, w = u ++ v /\ lang dotall r1 u /\ lang dotall r2 v.
Proof.
  split.
  - inversion 1 as [| | |? ? u v Hu Hv | | | | |]; subst. now exists u, v.
  - intros (u & v & -> & Hu & Hv). now constructor.
Qed.

End ReFacts.


(** ** Facts about the program *)

Example known_paths_lookup :
  KNOWN_PATHS !! "plugins/lsp/default.nix" = Some (NEW, MISC, false) /\
  KNOWN_PATHS !! "plugins/by-name/telescope/extensions/manix.nix"
    = Some (NEW, MISC, false) /\
  KNOWN_PATHS !! "plugins/by-name/foo/default.nix" = None /\
  size KNOWN_PATHS = 27.
Proof. vm_compute. repeat split. Qed.

Import Re ReFacts.

Lemma re_match_legacy (s : string) :
  re_match
    (compile
       (Cat (Star Dot) (Cat (Lit "require") (Cat (Plus Dot) (Lit "setup"))))
       true) s = true <->
  legacy_idiom s.
Proof.
  unfold re_match, legacy_idiom.
  cbn [pat_regex pat_dotall]. rewrite match_prefix_spec. split.
  - intros (u & v & E & H).
    apply lang_Cat_iff in H as (a & b & -> & _ & H).
    apply lang_Cat_iff in H as (b1 & b2 & -> & H1 & H).
    apply lang_Cat_iff in H as (g & t & -> & Hg & Ht).
    apply lang_Lit in H1, Ht. subst b1 t. apply lang_Plus_Dot in Hg.
    exists (Str.of_chars a), (Str.of_chars g), (Str.of_chars v). split.
    + intros Hn. apply Hg.
      rewrite <- (list_ascii_of_string_of_list_ascii g), Hn. reflexivity.
    + apply StrFacts.chars_inj.
      rewrite !StrFacts.chars_app, !list_ascii_of_string_of_list_ascii, E.
      now rewrite <- !app_assoc.
  - intros (pre & gap & post & Hgap & ->).
    exists (Str.chars pre ++ Str.chars "require" ++ Str.chars gap
              ++ Str.chars "setup"), (Str.chars post). split.
    + rewrite !StrFacts.chars_app. now rewrite <- !app_assoc.
    + constructor; [apply lang_Star_Dot |].
      constructor; [now apply lang_Lit |].
      constructor; [| now apply lang_Lit].
      apply lang_Plus_Dot. now rewrite chars_nil.
Qed.

(** *** parse_file, case by case *)

Lemma parse_file_unreadable (env : Env) (out : list string) (p : string) :
  file_text env p = None -> parse_file p env out = (Raise OSError, out).
Proof.
  intros H. unfold parse_file, mbind, M_bind, read_text. now rewrite H.
Qed.

Lemma parse_file_known (env : Env) (out : list string) (p text : string)
    (props : State * Kind * bool) :
  file_text env p = Some text ->
  KNOWN_PATHS !! p = Some props ->
  parse_file p env out =
    (Return (Some {| path := p; state := props.1.1; kind := props.1.2;
                     dep_warnings := props.2 |}), out).
Proof.
  intros Ht Hk. unfold parse_file, mbind, M_bind, read_text.
  rewrite Ht, Hk. reflexivity.
Qed.

Lemma parse_file_heuristic (env : Env) (out : list string) (p text : string) :
  file_text env p = Some text ->
  KNOWN_PATHS !! p = None ->
  parse_file p env out =
    ( if re_match (compile (Cat (Star Dot) (Lit "mkNeovimPlugin")) true) text
      then Return (Some {| path := p; state := NEW; kind := NEOVIM;
                           dep_warnings := has_deprecation_warnings text |})
      else if re_match
                (compile
                   (Cat (Star Dot)
                      (Cat (Lit "require") (Cat (Plus Dot) (Lit "setup"))))
                   true) text
      then Return (Some {| path := p; state := OLD; kind := NEOVIM;
                           dep_warnings := has_deprecation_warnings text |})
      else if re_match (compile (Cat (Star Dot) (Lit "mkVimPlugin")) true) text
      then Return (Some {| path := p; state := NEW; kind := VIM;
                           dep_warnings := has_deprecation_warnings text |})
      else Raise (UnboundLocalError "kind"),
      out ).
Proof.
  intros Ht Hk. unfold parse_file, mbind, M_bind, read_text.
  rewrite Ht, Hk.
  repeat match goal with
         | |- context [if ?b then _ else _] => destruct b
         end; reflexivity.
Qed.

Lemma parse_file_pure (env : Env) (out : list string) (p : string) :
  parse_file p env out = (parse_result env p, out).
Proof.
  unfold parse_result.
  destruct (file_text env p) as [text|] eqn:Ht.
  - destruct (KNOWN_PATHS !! p) as [props|] eqn:Hk.
    + rewrite (parse_file_known env out p text props Ht Hk),
        (parse_file_known env [] p text props Ht Hk). reflexivity.
    + rewrite (parse_file_heuristic env out p text Ht Hk),
        (parse_file_heuristic env [] p text Ht Hk). reflexivity.
  - rewrite (parse_file_unreadable env out p Ht),
      (parse_file_unreadable env [] p Ht). reflexivity.
Qed.

Lemma parse_result_cases (env : Env) (p : string) :
  (file_text env p = None /\ parse_result env p = Raise OSError) \/
  (exists text props,
     file_text env p = Some text /\ KNOWN_PATHS !! p = Some props /\
     parse_result env p =
       Return (Some {| path := p; state := props.1.1; kind := props.1.2;
                       dep_warnings := props.2 |})) \/
  (exists text,
     file_text env p = Some text /\ KNOWN_PATHS !! p = None /\
     (parse_result env p = Raise (UnboundLocalError "kind") \/
      exists st k,
        (k = NEOVIM \/ k = VIM) /\
        parse_result env p =
          Return (Some {| path := p; state := st; kind := k;
                          dep_warnings := has_deprecation_warnings text |}))).
Proof.
  unfold parse_result.
  destruct (file_text env p) as [text|] eqn:Ht.
  - destruct (KNOWN_PATHS !! p) as [props|] eqn:Hk.
    + right; left. exists text, props.
      rewrite (parse_file_known env [] p text props Ht Hk).
      split; [reflexivity | split; reflexivity].
    + right; right. exists text. split; [reflexivity | split; [reflexivity |]].
      rewrite (parse_file_heuristic env [] p text Ht Hk). cbn [fst].
      repeat match goal with
             | |- context [if ?b then _ else _] => destruct b
             end; eauto 8.
  - left. rewrite (parse_file_unreadable env [] p Ht).
    split; reflexivity.
Qed.

Lemma parse_result_not_none (env : Env) (p : string) :
  parse_result env p <> Return None.
Proof.
  destruct (parse_result_cases env p)
    as [[_ H] | [(t & pr & _ & _ & H) | (t & _ & _ & [H | (st & k & _ & H)])]];
    rewrite H; discriminate.
Qed.

Lemma parse_result_path (env : Env) (p : string) (plugin : Plugin) :
  parse_result env p = Return (Some plugin) -> path plugin = p.
Proof.
  destruct (parse_result_cases env p)
    as [[_ H] | [(t & pr & _ & _ & H) | (t & _ & _ & [H | (st & k & _ & H)])]];
    rewrite H; intros E; inversion E; reflexivity.
Qed.

(** *** The loop of main *)

Lemma for_each_ext {A : Type} (l : list A) (body1 body2 : A -> M unit) :
  (forall x env out, body1 x env out = body2 x env out) ->
  forall env out, for_each l body1 env out = for_each l body2 env out.
Proof.
  intros Hb. induction l as [|x l IH]; intros env out; simpl; [reflexivity |].
  unfold mbind, M_bind. rewrite Hb.
  destruct (body2 x env out) as [[[]|e] out']; [apply IH | reflexivity].
Qed.

Lemma for_each_report (args : Args) (body : string -> M unit) :
  (forall p env out,
     body p env out =
       match parse_result env p with
       | Return (Some plugin) =>
           (Return tt,
            out ++ if passes_filters args plugin then [render args plugin]
                   else [])
       | Return None => (Return tt, out)
       | Raise e => (Raise e, out)
       end) ->
  forall l env out,
    for_each l body env out =
      (loop_outcome env l,
       out ++ map (render args)
                (List.filter (passes_filters args) (classified env l))).
Proof.
  intros Hb l env. induction l as [|p l IH]; intros out; simpl.
  - now rewrite app_nil_r.
  - unfold mbind, M_bind. rewrite Hb.
    destruct (parse_result env p) as [[plugin|]|e]; simpl.
    + rewrite IH. destruct (passes_filters args plugin); simpl.
      * now rewrite <- app_assoc.
      * now rewrite app_nil_r.
    + apply IH.
    + now rewrite app_nil_r.
Qed.

Lemma main_spec (args : Args) (env : Env) (out : list string) :
  main args env out =
    (loop_outcome env (filtered_paths env),
     out ++ header args ++ map (render args) (printed args env)).
Proof.
  unfold main, printed, filtered_paths, header.
  unfold mbind at 1. unfold M_bind at 1. unfold glob at 1.
  set (l := merge_sort _ _).
  unfold mbind at 1. unfold M_bind at 1.
  set (body := fun plugin_path : string => _).
  assert (Hbody : forall p env out,
             body p env out =
               match parse_result env p with
               | Return (Some plugin) =>
                   (Return tt,
                    out ++ if passes_filters args plugin
                           then [render args plugin] else [])
               | Return None => (Return tt, out)
               | Raise e => (Raise e, out)
               end).
  { intros p env' out'. unfold body, mbind, M_bind.
    rewrite parse_file_pure.
    destruct (parse_result env' p) as [[plugin|]|e]; try reflexivity.
    fold (passes_filters args plugin). unfold render, print_markdown, print.
    destruct (passes_filters args plugin), (args_markdown args);
      simpl; rewrite ?app_nil_r; reflexivity. }
  destruct (args_markdown args); simpl.
  - rewrite (for_each_report args body Hbody). reflexivity.
  - unfold mbind, M_bind, print. 
    rewrite (for_each_report args body Hbody).
    now rewrite <- !app_assoc.
Qed.

(** *** The records of a run *)

Lemma classified_prefix (env : Env) (l : list string) :
  exists rest, l = map path (classified env l) ++ rest.
Proof.
  induction l as [|p l [rest IH]]; simpl.
  - now exists [].
  - destruct (parse_result env p) as [[plugin|]|e] eqn:Hp.
    + exists rest. simpl. rewrite (parse_result_path env p plugin Hp).
      now rewrite <- IH.
    + now apply parse_result_not_none in Hp.
    + now exists (p :: l).
Qed.

Lemma classified_In (env : Env) (l : list string) (plugin : Plugin) :
  In plugin (classified env l) ->
  In (path plugin) l /\ parse_result env (path plugin) = Return (Some plugin).
Proof.
  induction l as [|p l IH]; simpl; [tauto |].
  destruct (parse_result env p) as [[q|]|e] eqn:Hp; simpl.
  - intros [<- | H].
    + rewrite (parse_result_path env p q Hp). auto.
    + destruct (IH H). auto.
  - intros H. destruct (IH H). auto.
  - tauto.
Qed.

Lemma loop_outcome_normal (env : Env) (l : list string) :
  loop_outcome env l = Return tt -> map path (classified env l) = l.
Proof.
  induction l as [|p l IH]; simpl; [reflexivity |].
  destruct (parse_result env p) as [[q|]|e] eqn:Hp; simpl.
  - intros H. rewrite (parse_result_path env p q Hp). now rewrite IH.
  - now apply parse_result_not_none in Hp.
  - discriminate.
Qed.

Lemma loop_outcome_unreadable (env : Env) (l : list string) (p : string) :
  In p l -> file_text env p = None -> exists e, loop_outcome env l = Raise e.
Proof.
  intros Hin Hp. induction l as [|q l IH]; simpl in *; [tauto |].
  destruct (parse_result env q) as [r|e] eqn:Hq; [| now exists e].
  destruct Hin as [-> | Hin]; [| auto].
  unfold parse_result in Hq.
  rewrite (parse_file_unreadable env [] p Hp) in Hq. discriminate.
Qed.

Lemma StronglySorted_map_filter {A B : Type} (R : relation B) (f : A -> B)
    (P : A -> bool) (l : list A) :
  StronglySorted R (map f l) -> StronglySorted R (map f (List.filter P l)).
Proof.
  induction l as [|a l IH]; simpl; [trivial |].
  inversion 1 as [|? ? Hs Hall]; subst.
  destruct (P a); simpl; [| auto].
  constructor; [auto |].
  rewrite List.Forall_forall in *. intros y Hy. apply Hall.
  apply in_map_iff in Hy as (x & <- & Hx). apply filter_In in Hx as [Hx _].
  now apply in_map.
Qed.

Lemma filtered_paths_sorted (env : Env) :
  StronglySorted String.le (filtered_paths env).
Proof. apply StronglySorted_merge_sort; apply _. Qed.

(** Whatever algorithm sorts the list, the result is the same: a sorted
    rearrangement of a list of strings is unique. *)
Lemma sorted_paths_unique (l l' : list string) :
  StronglySorted String.le l' -> l' ≡ₚ l -> l' = merge_sort String.le l.
Proof.
  intros Hs Hp. apply (StronglySorted_unique String.le); [exact Hs | |].
  - apply StronglySorted_merge_sort; apply _.
  - now rewrite merge_sort_Permutation.
Qed.

Lemma filtered_paths_In (env : Env) (p : string) :
  In p (filtered_paths env) <->
  In p (glob_result env "plugins/**/*.nix") /\ _is_excluded p = true.
Proof.
  unfold filtered_paths. rewrite <- filter_In, <- !list_elem_of_In.
  now rewrite merge_sort_Permutation.
Qed.

Lemma printed_sorted (args : Args) (env : Env) :
  StronglySorted String.le (map path (printed args env)).
Proof.
  unfold printed. apply StronglySorted_map_filter.
  destruct (classified_prefix env (filtered_paths env)) as [rest E].
  pose proof (filtered_paths_sorted env) as Hs. rewrite E in Hs.
  now apply StronglySorted_app_1_l in Hs.
Qed.

(** *** The two predicates *)

Lemma is_excluded_spec (p : string) :
  _is_excluded p = true <->
  forall pattern, In pattern EXCLUDES -> ~ Str.occurs_in pattern p.
Proof.
  unfold _is_excluded. rewrite negb_true_iff. split.
  - intros H pattern Hin Hocc. apply StrFacts.contains_true in Hocc.
    assert (Hex : existsb (fun q => Str.contains q p) EXCLUDES = true)
      by (apply existsb_exists; eauto).
    congruence.
  - intros H.
    destruct (existsb (fun q => Str.contains q p) EXCLUDES) eqn:Hex;
      [| reflexivity].
    apply existsb_exists in Hex as (pattern & Hin & Hc).
    apply StrFacts.contains_true in Hc. now apply H in Hc.
Qed.

Lemma has_deprecation_warnings_true (s : string) :
  has_deprecation_warnings s = true <->
  exists marker,
    In marker [ "deprecateExtra"; "mkRemovedOptionModule";
                "mkRenamedOptionModule"; "optionsRenamedToSettings" ] /\
    Str.occurs_in marker s.
Proof.
  unfold has_deprecation_warnings, DEPRECATION_REGEX.
  rewrite existsb_exists. split.
  - intros (regex & Hin & Hm). apply in_map_iff in Hin as (marker & <- & Hin).
    exists marker. split; [exact Hin | now apply re_match_marker].
  - intros (marker & Hin & Hocc).
    exists (compile (Cat (Star Dot) (Lit marker)) true). split.
    + apply in_map_iff. now exists marker.
    + now apply re_match_marker.
Qed.

Lemma passes_filters_spec (args : Args) (plugin : Plugin) :
  passes_filters args plugin = true <->
  (forall k, args_kind args = Some k ->
             Str.lower (Kind_name (kind plugin)) = k) /\
  (forall s, args_state args = Some s ->
             Str.lower (State_name (state plugin)) = s) /\
  (args_deprecation_warnings args = true -> dep_warnings plugin = true).
Proof.
  unfold passes_filters. rewrite !andb_true_iff, orb_true_iff, negb_true_iff.
  destruct (args_kind args) as [k|], (args_state args) as [s|];
    rewrite ?String.eqb_eq; split.
  all: try (intros [[H1 H2] H3]; repeat split; intros;
            try congruence;
            destruct H3; congruence).
  all: intros (H1 & H2 & H3); repeat split; auto;
    destruct (args_deprecation_warnings args); auto.
Qed.

(** ** The properties of the classification engine *)

(** C1.  The claim is that [parse_file] returns a record on every readable
    path, with style [UNKNOWN] when no heuristic matches.  The code does
    not: on a readable path that is not in [KNOWN_PATHS] and whose text
    matches none of the three heuristics, the local [kind] is never
    assigned and building the record raises [UnboundLocalError]. *)
Theorem parse_file_unmatched_raises (env : Env) (out : list string)
    (p text : string) :
  file_text env p = Some text ->
  KNOWN_PATHS !! p = None ->
  ~ Str.occurs_in "mkNeovimPlugin" text ->
  ~ legacy_idiom text ->
  ~ Str.occurs_in "mkVimPlugin" text ->
  parse_file p env out = (Raise (UnboundLocalError "kind"), out).
Proof.
  intros Ht Hk Hn Hl Hv. rewrite (parse_file_heuristic env out p text Ht Hk).
  rewrite <- re_match_marker in Hn, Hv. rewrite <- re_match_legacy in Hl.
  apply not_true_is_false in Hn, Hl, Hv. now rewrite Hn, Hl, Hv.
Qed.

Lemma parse_file_unmatched_raises_witness :
  parse_file "plugins/by-name/foo/default.nix" env_unmatched []
    = (Raise (UnboundLocalError "kind"), []).
Proof.
  apply (parse_file_unmatched_raises env_unmatched []
           "plugins/by-name/foo/default.nix" "{ lib, ... }: { }").
  - reflexivity.
  - vm_compute. reflexivity.
  - apply StrFacts.contains_false. vm_compute. reflexivity.
  - intros H. apply re_match_legacy in H. vm_compute in H. discriminate H.
  - apply StrFacts.contains_false. vm_compute. reflexivity.
Defined.

(** The same input stops the whole run: the table header is printed and
    then the exception leaves [main]. *)
Example main_unmatched_raises :
  main args_default env_unmatched []
    = (Raise (UnboundLocalError "kind"), header args_default).
Proof. vm_compute. reflexivity. Qed.

(** C2.  A path that is a key of [KNOWN_PATHS] gets exactly the triple of
    the table, whatever the text of the file is. *)
Theorem known_path_overrides_content (env : Env) (out : list string)
    (p text : string) (st : State) (k : Kind) (d : bool) :
  KNOWN_PATHS !! p = Some (st, k, d) ->
  file_text env p = Some text ->
  parse_file p env out =
    (Return (Some {| path := p; state := st; kind := k; dep_warnings := d |}),
     out).
Proof.
  intros Hk Ht. now rewrite (parse_file_known env out p text _ Ht Hk).
Qed.

Lemma known_path_overrides_content_witness :
  parse_file "plugins/lsp/default.nix" env_all_markers []
    = (Return (Some {| path := "plugins/lsp/default.nix"; state := NEW;
                       kind := MISC; dep_warnings := false |}), []).
Proof.
  apply (known_path_overrides_content env_all_markers []
           "plugins/lsp/default.nix"
           "require('foo').setup{} mkVimPlugin mkNeovimPlugin mkRemovedOptionModule").
  - vm_compute. reflexivity.
  - reflexivity.
Defined.

(** C3.  For a readable path outside [KNOWN_PATHS] the heuristics are an
    ordered short-circuit over the whole text: a text in which
    [mkNeovimPlugin] occurs anywhere is (NEW, NEOVIM) whatever else it
    holds; failing that, a text with the legacy idiom is (OLD, NEOVIM);
    failing both, a text in which [mkVimPlugin] occurs is (NEW, VIM). *)
Theorem heuristics_ordered_short_circuit (env : Env) (out : list string)
    (p text : string) :
  file_text env p = Some text ->
  KNOWN_PATHS !! p = None ->
  (Str.occurs_in "mkNeovimPlugin" text ->
   parse_file p env out =
     (Return (Some {| path := p; state := NEW; kind := NEOVIM;
                      dep_warnings := has_deprecation_warnings text |}), out))
  /\
  (~ Str.occurs_in "mkNeovimPlugin" text -> legacy_idiom text ->
   parse_file p env out =
     (Return (Some {| path := p; state := OLD; kind := NEOVIM;
                      dep_warnings := has_deprecation_warnings text |}), out))
  /\
  (~ Str.occurs_in "mkNeovimPlugin" text -> ~ legacy_idiom text ->
   Str.occurs_in "mkVimPlugin" text ->
   parse_file p env out =
     (Return (Some {| path := p; state := NEW; kind := VIM;
                      dep_warnings := has_deprecation_warnings text |}), out)).
Proof.
  intros Ht Hk. rewrite (parse_file_heuristic env out p text Ht Hk).
  rewrite <- !re_match_marker, <- re_match_legacy.
  repeat split.
  - intros ->. reflexivity.
  - intros Hn ->. apply not_true_is_false in Hn. now rewrite Hn.
  - intros Hn Hl ->. apply not_true_is_false in Hn, Hl. now rewrite Hn, Hl.
Qed.

Lemma heuristics_ordered_short_circuit_witness :
  parse_file "plugins/by-name/foo/default.nix" env_all_markers []
    = (Return (Some {| path := "plugins/by-name/foo/default.nix";
                       state := NEW; kind := NEOVIM;
                       dep_warnings := true |}), [])
  /\
  parse_file "plugins/by-name/l/default.nix" env_legacy_vim []
    = (Return (Some {| path := "plugins/by-name/l/default.nix";
                       state := OLD; kind := NEOVIM;
                       dep_warnings := false |}), [])
  /\
  parse_file "plugins/by-name/v/default.nix" env_legacy_vim []
    = (Return (Some {| path := "plugins/by-name/v/default.nix";
                       state := NEW; kind := VIM;
                       dep_warnings := false |}), []).
Proof.
  split; [| split].
  - destruct (heuristics_ordered_short_circuit env_all_markers []
                "plugins/by-name/foo/default.nix"
                "require('foo').setup{} mkVimPlugin mkNeovimPlugin mkRemovedOptionModule")
      as [H _].
    + reflexivity.
    + vm_compute. reflexivity.
    + apply H. apply StrFacts.contains_true. vm_compute. reflexivity.
  - destruct (heuristics_ordered_short_circuit env_legacy_vim []
                "plugins/by-name/l/default.nix"
                ("require('l')" +:+ String Re.newline ".setup()"))
      as (_ & H & _).
    + reflexivity.
    + vm_compute. reflexivity.
    + apply H.
      * apply StrFacts.contains_false. vm_compute. reflexivity.
      * apply re_match_legacy. vm_compute. reflexivity.
  - destruct (heuristics_ordered_short_circuit env_legacy_vim []
                "plugins/by-name/v/default.nix"
                "helpers.vim-plugin.mkVimPlugin { }")
      as (_ & _ & H).
    + reflexivity.
    + vm_compute. reflexivity.
    + apply H.
      * apply StrFacts.contains_false. vm_compute. reflexivity.
      * intros Hl. apply re_match_legacy in Hl. vm_compute in Hl.
        discriminate Hl.
      * apply StrFacts.contains_true. vm_compute. reflexivity.
Defined.

(** C4.  [_is_excluded] returns [True] exactly when no exclusion pattern
    occurs in the path; only the paths on which it returns [True] survive
    the filter of [main]; and no record of a path in which an exclusion
    pattern occurs is printed. *)
Theorem excluded_paths_are_dropped (args : Args) (env : Env)
    (out : list string) (p : string) :
  (_is_excluded p = true <->
   forall pattern, In pattern EXCLUDES -> ~ Str.occurs_in pattern p)
  /\
  (In p (filtered_paths env) <->
   In p (glob_result env "plugins/**/*.nix") /\
   forall pattern, In pattern EXCLUDES -> ~ Str.occurs_in pattern p)
  /\
  snd (main args env out)
    = out ++ header args ++ map (render args) (printed args env)
  /\
  (forall plugin pattern,
     In plugin (printed args env) -> In pattern EXCLUDES ->
     ~ Str.occurs_in pattern (path plugin)).
Proof.
  split; [apply is_excluded_spec |].
  split; [rewrite filtered_paths_In, is_excluded_spec; reflexivity |].
  split; [now rewrite main_spec |].
  intros plugin pattern Hin Hpat. unfold printed in Hin.
  apply filter_In in Hin as [Hin _]. apply classified_In in Hin as [Hin _].
  apply filtered_paths_In in Hin as [_ Hex].
  now apply (proj1 (is_excluded_spec _) Hex).
Qed.

Lemma excluded_paths_are_dropped_witness :
  ~ In "plugins/default.nix"
      (filtered_paths
         {| glob_result := fun _ =>
              [ "plugins/default.nix"; "plugins/by-name/foo/default.nix" ];
            file_text := fun _ => Some "mkNeovimPlugin" |}).
Proof.
  intros Hin.
  destruct (excluded_paths_are_dropped args_default
              {| glob_result := fun _ =>
                   [ "plugins/default.nix"; "plugins/by-name/foo/default.nix" ];
                 file_text := fun _ => Some "mkNeovimPlugin" |}
              [] "plugins/default.nix") as (_ & [Hdrop _] & _).
  destruct (Hdrop Hin) as [_ Hno].
  apply (Hno "plugins/default.nix").
  - vm_compute. tauto.
  - now exists EmptyString, EmptyString.
Defined.

(** C5.  [has_deprecation_warnings] is a membership test on the text: it
    is [True] exactly when one of the four markers occurs in it; and for a
    path outside [KNOWN_PATHS] the flag of the record is that test on the
    text, whichever style and kind the heuristics chose. *)
Theorem deprecation_detection_is_membership (env : Env) (out : list string)
    (p text : string) :
  (has_deprecation_warnings text = true <->
   exists marker,
     In marker [ "deprecateExtra"; "mkRemovedOptionModule";
                 "mkRenamedOptionModule"; "optionsRenamedToSettings" ] /\
     Str.occurs_in marker text)
  /\
  (has_deprecation_warnings text = false <->
   forall marker,
     In marker [ "deprecateExtra"; "mkRemovedOptionModule";
                 "mkRenamedOptionModule"; "optionsRenamedToSettings" ] ->
     ~ Str.occurs_in marker text)
  /\
  (forall plugin out',
     file_text env p = Some text -> KNOWN_PATHS !! p = None ->
     parse_file p env out = (Return (Some plugin), out') ->
     dep_warnings plugin = has_deprecation_warnings text).
Proof.
  split; [apply has_deprecation_warnings_true |].
  split.
  - rewrite <- not_true_iff_false, has_deprecation_warnings_true.
    split.
    + intros H marker Hin Hocc. apply H. eauto.
    + intros H (marker & Hin & Hocc). exact (H marker Hin Hocc).
  - intros plugin out' Ht Hk.
    rewrite (parse_file_heuristic env out p text Ht Hk).
    repeat match goal with
           | |- context [if ?b then _ else _] => destruct b
           end; intros E; inversion E; reflexivity.
Qed.

Lemma deprecation_detection_is_membership_witness :
  has_deprecation_warnings "{ imports = [ (mkRenamedOptionModule a b) ]; }"
    = true.
Proof.
  destruct (deprecation_detection_is_membership env_unmatched [] ""
              "{ imports = [ (mkRenamedOptionModule a b) ]; }") as [[_ H] _].
  apply H. exists "mkRenamedOptionModule". split.
  - simpl. tauto.
  - now exists "{ imports = [ (", " a b) ]; }".
Defined.

(** C6.  The paths are filtered, then sorted once into ascending order,
    and the loop classifies them in that order: the records obtained are
    those of an initial segment of the sorted list, and the lines printed,
    in either output mode, are those of the records that pass the filters,
    in ascending order of path. *)
Theorem report_in_ascending_path_order (args : Args) (env : Env)
    (out : list string) :
  StronglySorted String.le (filtered_paths env)
  /\
  filtered_paths env
    ≡ₚ List.filter _is_excluded (glob_result env "plugins/**/*.nix")
  /\
  (exists rest,
     filtered_paths env
       = map path (classified env (filtered_paths env)) ++ rest)
  /\
  snd (main args env out)
    = out ++ header args ++ map (render args) (printed args env)
  /\
  StronglySorted String.le (map path (printed args env)).
Proof.
  split; [apply filtered_paths_sorted |].
  split; [apply merge_sort_Permutation |].
  split; [apply classified_prefix |].
  split; [now rewrite main_spec | apply printed_sorted].
Qed.

(** The example of the claim, in both output modes. *)
Example report_order_sample :
  main args_markdown_only env_two_paths []
    = (Return tt, [ "- [ ] a/y.ext (neovim)"; "- [ ] b/x.ext (neovim)" ])
  /\
  map path (printed args_default env_two_paths) = [ "a/y.ext"; "b/x.ext" ].
Proof. vm_compute. split; reflexivity. Qed.

(** C7.  The filters compose by conjunction: a record passes exactly when
    it satisfies each filter that was given (a kind or a state that is
    [None] constrains nothing, the deprecation filter keeps the records
    whose flag is set), and the lines a run prints are those of the
    classified records that pass; in a run that ends normally every
    iterated path has been classified. *)
Theorem filters_compose_by_conjunction (args : Args) (env : Env)
    (out : list string) :
  (forall plugin,
     passes_filters args plugin = true <->
     (forall k, args_kind args = Some k ->
                Str.lower (Kind_name (kind plugin)) = k) /\
     (forall s, args_state args = Some s ->
                Str.lower (State_name (state plugin)) = s) /\
     (args_deprecation_warnings args = true -> dep_warnings plugin = true))
  /\
  snd (main args env out)
    = out ++ header args ++
      map (render args)
        (List.filter (passes_filters args)
           (classified env (filtered_paths env)))
  /\
  (forall plugin,
     In plugin (printed args env) <->
     In plugin (classified env (filtered_paths env)) /\
     passes_filters args plugin = true)
  /\
  (fst (main args env out) = Return tt ->
   map path (classified env (filtered_paths env)) = filtered_paths env).
Proof.
  split; [intros plugin; apply passes_filters_spec |].
  split; [now rewrite main_spec |].
  split; [intros plugin; unfold printed; apply filter_In |].
  rewrite main_spec. apply loop_outcome_normal.
Qed.

(** The example of the specification: of three records, the filters
    kind = neovim and state = new keep exactly the first. *)
Example filters_sample :
  map path (classified env_three (filtered_paths env_three))
    = [ "plugins/by-name/p1/default.nix"; "plugins/by-name/p2/default.nix";
        "plugins/by-name/p3/default.nix" ]
  /\
  main args_neovim_new env_three []
    = (Return tt, [ "- [ ] plugins/by-name/p1/default.nix (neovim)" ]).
Proof. vm_compute. split; reflexivity. Qed.

Lemma filters_compose_by_conjunction_witness :
  passes_filters args_neovim_new
    {| path := "plugins/by-name/p1/default.nix"; state := NEW;
       kind := NEOVIM; dep_warnings := false |} = true.
Proof.
  destruct (filters_compose_by_conjunction args_neovim_new env_three [])
    as [H _].
  apply H. split; [| split].
  - intros k Hk. vm_compute in Hk. injection Hk as <-. vm_compute. reflexivity.
  - intros s Hs. vm_compute in Hs. injection Hs as <-. vm_compute. reflexivity.
  - intros Hd. vm_compute in Hd. discriminate Hd.
Defined.

(** C8.  [parse_file] reads the file before it looks the path up in
    [KNOWN_PATHS]: on a path that cannot be read it raises, whether or not
    the path has an entry, and a run that reaches such a path among those
    it iterates ends with an exception; when the read succeeds and the
    path has an entry, the record is built from the entry alone. *)
Theorem read_precedes_override_lookup (env : Env) (out : list string)
    (p : string) :
  (file_text env p = None -> parse_file p env out = (Raise OSError, out))
  /\
  (file_text env p = None ->
   In p (glob_result env "plugins/**/*.nix") -> _is_excluded p = true ->
   forall args, exists e out', main args env out = (Raise e, out'))
  /\
  (forall text props,
     file_text env p = Some text -> KNOWN_PATHS !! p = Some props ->
     parse_file p env out =
       (Return (Some {| path := p; state := props.1.1; kind := props.1.2;
                        dep_warnings := props.2 |}), out)).
Proof.
  split; [apply parse_file_unreadable |].
  split.
  - intros Hp Hin Hex args. rewrite main_spec.
    destruct (loop_outcome_unreadable env (filtered_paths env) p) as [e He].
    + apply filtered_paths_In. auto.
    + exact Hp.
    + rewrite He. eauto.
  - intros text props Ht Hk. exact (parse_file_known env out p text props Ht Hk).
Qed.

Lemma read_precedes_override_lookup_witness :
  KNOWN_PATHS !! "plugins/lsp/default.nix" = Some (NEW, MISC, false) /\
  parse_file "plugins/lsp/default.nix" env_unreadable [] = (Raise OSError, [])
  /\
  (exists e out', main args_default env_unreadable [] = (Raise e, out')).
Proof.
  destruct (read_precedes_override_lookup env_unreadable []
              "plugins/lsp/default.nix") as (H1 & H2 & _).
  split; [vm_compute; reflexivity |].
  split.
  - apply H1. reflexivity.
  - apply H2.
    + reflexivity.
    + simpl. tauto.
    + vm_compute. reflexivity.
Defined.

(** C9.  [parse_file] never returns [None]: whenever it returns, it
    returns a record; so the [if plugin is not None] guard of [main] never
    rejects anything, and [main] behaves as the loop without the guard. *)
Theorem parse_file_never_returns_none (args : Args) (env : Env)
    (out : list string) :
  (forall p r out',
     parse_file p env out = (Return r, out') -> exists plugin, r = Some plugin)
  /\
  main args env out = main_unguarded args env out.
Proof.
  split.
  - intros p r out'. rewrite parse_file_pure. intros E.
    injection E as E _. destruct r as [plugin|]; [eauto |].
    now apply parse_result_not_none in E.
  - unfold main, main_unguarded, mbind, M_bind, glob.
    destruct (if negb (args_markdown args) then _ else _) as [[[]|e] o];
      [| reflexivity].
    apply for_each_ext. intros p env' out'.
    rewrite parse_file_pure.
    destruct (parse_result env' p) as [[plugin|]|e] eqn:Hp; try reflexivity.
    now apply parse_result_not_none in Hp.
Qed.

Lemma parse_file_never_returns_none_witness :
  exists plugin,
    Some {| path := "plugins/by-name/foo/default.nix"; state := NEW;
            kind := NEOVIM; dep_warnings := true |} = Some plugin.
Proof.
  destruct (parse_file_never_returns_none args_default env_all_markers [])
    as [H _].
  apply (H "plugins/by-name/foo/default.nix" _ []).
  vm_compute. reflexivity.
Defined.

(** C10.  The heuristics never choose the kind [MISC]: a record returned
    for a path outside [KNOWN_PATHS] is of kind [NEOVIM] or [VIM]; so a
    returned or printed record of kind [MISC] comes from an entry of
    [KNOWN_PATHS] for its path. *)
Theorem misc_only_from_known_paths (args : Args) (env : Env)
    (out : list string) :
  (forall p plugin out',
     parse_file p env out = (Return (Some plugin), out') ->
     KNOWN_PATHS !! p = None ->
     kind plugin = NEOVIM \/ kind plugin = VIM)
  /\
  (forall p plugin out',
     parse_file p env out = (Return (Some plugin), out') ->
     kind plugin = MISC ->
     exists st d,
       KNOWN_PATHS !! p = Some (st, MISC, d) /\
       plugin = {| path := p; state := st; kind := MISC; dep_warnings := d |})
  /\
  (forall plugin,
     In plugin (printed args env) -> kind plugin = MISC ->
     exists st d,
       KNOWN_PATHS !! path plugin = Some (st, MISC, d) /\
       state plugin = st /\ dep_warnings plugin = d).
Proof.
  assert (Hcore : forall p plugin,
             parse_result env p = Return (Some plugin) ->
             (KNOWN_PATHS !! p = None ->
              kind plugin = NEOVIM \/ kind plugin = VIM) /\
             (kind plugin = MISC ->
              exists st d,
                KNOWN_PATHS !! p = Some (st, MISC, d) /\
                plugin = {| path := p; state := st; kind := MISC;
                            dep_warnings := d |})).
  { intros p plugin.
    destruct (parse_result_cases env p)
      as [[_ H] | [(t & pr & _ & Hk & H) | (t & _ & Hk & [H | (st & k & Hv & H)])]];
      rewrite H; intros E; inversion E; subst; clear E; simpl.
    - split; [congruence |]. destruct pr as [[st k] d]; simpl.
      intros ->. eauto.
    - split; [auto |]. intros ->. destruct Hv; discriminate. }
  split; [| split].
  - intros p plugin out'. rewrite parse_file_pure. intros E.
    injection E as E _. now apply Hcore.
  - intros p plugin out'. rewrite parse_file_pure. intros E.
    injection E as E _. now apply Hcore.
  - intros plugin Hin Hm. unfold printed in Hin.
    apply filter_In in Hin as [Hin _]. apply classified_In in Hin as [_ Hp].
    destruct (proj2 (Hcore _ _ Hp) Hm) as (st & d & Hk & E).
    exists st, d. split; [exact Hk |]. rewrite E. auto.
Qed.

Lemma misc_only_from_known_paths_witness :
  NEOVIM = NEOVIM \/ NEOVIM = VIM.
Proof.
  destruct (misc_only_from_known_paths args_default env_all_markers [])
    as [H _].
  apply (H "plugins/by-name/foo/default.nix"
           {| path := "plugins/by-name/foo/default.nix"; state := NEW;
              kind := NEOVIM; dep_warnings := true |} []).
  - vm_compute. reflexivity.
  - vm_compute. reflexivity.
Defined.

(** ** Further properties of the program *)

(** *** When a run succeeds and where it stops *)

Lemma parse_result_returns_iff (env : Env) (p : string) :
  (exists r, parse_result env p = Return r) <->
  exists text,
    file_text env p = Some text /\
    (KNOWN_PATHS !! p <> None \/ Str.occurs_in "mkNeovimPlugin" text \/
     legacy_idiom text \/ Str.occurs_in "mkVimPlugin" text).
Proof.
  unfold parse_result.
  destruct (file_text env p) as [text|] eqn:Ht.
  - destruct (KNOWN_PATHS !! p) as [props|] eqn:Hk.
    + rewrite (parse_file_known env [] p text props Ht Hk). split.
      * intros _. exists text. split; [reflexivity | left; discriminate].
      * intros _. eexists. reflexivity.
    + rewrite (parse_file_heuristic env [] p text Ht Hk). cbn [fst]. split.
      * intros [r Hr]. exists text. split; [reflexivity | right].
        rewrite <- !re_match_marker, <- re_match_legacy.
        repeat match goal with
               | H : context [if ?b then _ else _] |- _ =>
                   destruct b eqn:?; auto
               end. discriminate Hr.
      * intros (text' & E & [H | H]); [congruence |].
        injection E as <-.
        rewrite <- !re_match_marker, <- re_match_legacy in H.
        repeat match goal with
               | |- context [if ?b then _ else _] => destruct b eqn:?
               end; try (eexists; reflexivity).
        destruct H as [H | [H | H]]; congruence.
  - rewrite (parse_file_unreadable env [] p Ht). split.
    + intros [r Hr]. discriminate Hr.
    + intros (text & E & _). discriminate E.
Qed.

Lemma loop_outcome_returns_iff (env : Env) (l : list string) :
  loop_outcome env l = Return tt <->
  forall p, In p l -> exists r, parse_result env p = Return r.
Proof.
  induction l as [|q l IH]; simpl.
  - split; [tauto | reflexivity].
  - destruct (parse_result env q) as [r|e] eqn:Hq.
    + rewrite IH. split.
      * intros H p [<- | Hp]; [eauto | auto].
      * intros H p Hp. apply H. auto.
    + split; [discriminate |].
      intros H. destruct (H q (or_introl eq_refl)) as [r Hr]. congruence.
Qed.


(** X1.  A run of [main] ends normally exactly when every globbed path
    that survives the exclusion filter can be read and either is a key of
    [KNOWN_PATHS] or has a text matched by one of the three heuristics. *)
Theorem run_succeeds_iff (args : Args) (env : Env) (out : list string) :
  fst (main args env out) = Return tt <->
  forall p,
    In p (glob_result env "plugins/**/*.nix") -> _is_excluded p = true ->
    exists text,
      file_text env p = Some text /\
      (KNOWN_PATHS !! p <> None \/ Str.occurs_in "mkNeovimPlugin" text \/
       legacy_idiom text \/ Str.occurs_in "mkVimPlugin" text).
Proof.
  rewrite main_spec. cbn [fst]. rewrite loop_outcome_returns_iff. split.
  - intros H p Hin Hex. apply parse_result_returns_iff, H.
    apply filtered_paths_In. auto.
  - intros H p Hin. apply filtered_paths_In in Hin as [Hin Hex].
    apply parse_result_returns_iff. auto.
Qed.

Lemma run_succeeds_iff_witness :
  exists text,
    file_text env_three "plugins/by-name/p2/default.nix" = Some text /\
    (KNOWN_PATHS !! "plugins/by-name/p2/default.nix" <> None \/
     Str.occurs_in "mkNeovimPlugin" text \/
     legacy_idiom text \/ Str.occurs_in "mkVimPlugin" text).
Proof.
  destruct (run_succeeds_iff args_default env_three []) as [H _].
  apply H.
  - vm_compute. reflexivity.
  - simpl. tauto.
  - vm_compute. reflexivity.
Defined.



(** *** The report does not depend on the order of the scan *)

Lemma filter_Permutation_bool {A : Type} (f : A -> bool) (l1 l2 : list A) :
  l1 ≡ₚ l2 -> List.filter f l1 ≡ₚ List.filter f l2.
Proof.
  induction 1 as [| x l1 l2 _ IH | x y l | l1 l2 l3 _ IH1 _ IH2]; simpl.
  - reflexivity.
  - destruct (f x); [now constructor | exact IH].
  - destruct (f x), (f y); try reflexivity. apply perm_swap.
  - now transitivity (List.filter f l2).
Qed.

Lemma parse_result_ext (env1 env2 : Env) (p : string) :
  file_text env1 p = file_text env2 p ->
  parse_result env1 p = parse_result env2 p.
Proof.
  intros H. unfold parse_result.
  destruct (file_text env2 p) as [text|] eqn:Ht.
  - destruct (KNOWN_PATHS !! p) as [props|] eqn:Hk.
    + rewrite (parse_file_known env1 [] p text props H Hk),
        (parse_file_known env2 [] p text props Ht Hk). reflexivity.
    + rewrite (parse_file_heuristic env1 [] p text H Hk),
        (parse_file_heuristic env2 [] p text Ht Hk). reflexivity.
  - rewrite (parse_file_unreadable env1 [] p H),
      (parse_file_unreadable env2 [] p Ht). reflexivity.
Qed.

Lemma classified_ext (env1 env2 : Env) (l : list string) :
  (forall p, file_text env1 p = file_text env2 p) ->
  classified env1 l = classified env2 l /\
  loop_outcome env1 l = loop_outcome env2 l.
Proof.
  intros H. induction l as [|p l [IH1 IH2]]; simpl; [auto |].
  rewrite (parse_result_ext env1 env2 p (H p)), IH1, IH2. auto.
Qed.

(** X3.  The result of a run does not depend on the order in which the
    directory scan yields the paths: two trees with the same files, found
    in any two orders, give the same outcome and the same lines. *)
Theorem scan_order_is_irrelevant (args : Args) (env1 env2 : Env)
    (out : list string) :
  (forall p, file_text env1 p = file_text env2 p) ->
  glob_result env1 "plugins/**/*.nix" ≡ₚ glob_result env2 "plugins/**/*.nix" ->
  main args env1 out = main args env2 out.
Proof.
  intros Ht Hg. rewrite !main_spec. unfold printed.
  assert (E : filtered_paths env1 = filtered_paths env2).
  { unfold filtered_paths. apply sorted_paths_unique.
    - apply StronglySorted_merge_sort; apply _.
    - rewrite merge_sort_Permutation. now apply filter_Permutation_bool. }
  rewrite E. destruct (classified_ext env1 env2 (filtered_paths env2) Ht)
    as [-> ->].
  reflexivity.
Qed.

Lemma scan_order_is_irrelevant_witness :
  main args_default env_two_paths []
    = main args_default
        {| glob_result := fun _ => [ "a/y.ext"; "b/x.ext" ];
           file_text := fun _ => Some "mkNeovimPlugin" |} [].
Proof.
  apply scan_order_is_irrelevant.
  - intros p. reflexivity.
  - apply perm_swap.
Defined.

(** *** The two output modes *)

(** X4.  The table and the checklist show the same records in the same
    order and end the same way: they differ only in the header, which the
    table alone prints (even when the run fails), and in how a record is
    rendered. *)
Theorem output_modes_agree (k s : option string) (d : bool) (env : Env)
    (out : list string) :
  exists (records : list Plugin) (outcome : Result unit),
    main {| args_kind := k; args_state := s;
            args_deprecation_warnings := d; args_markdown := false |} env out
      = (outcome,
         out ++ [ "| Typ | Sty | DW | path";
                  "|-----|-----|----|--------------------------------------------------------" ]
             ++ map Plugin_str records)
    /\
    main {| args_kind := k; args_state := s;
            args_deprecation_warnings := d; args_markdown := true |} env out
      = (outcome, out ++ map markdown_line records).
Proof.
  exists (printed {| args_kind := k; args_state := s;
                     args_deprecation_warnings := d;
                     args_markdown := false |} env),
    (loop_outcome env (filtered_paths env)).
  rewrite !main_spec. split; reflexivity.
Qed.

(** *** The style UNKNOWN *)

Lemma known_paths_states :
  map_Forall (fun (_ : string) (props : State * Kind * bool) =>
                props.1.1 <> UNKNOWN) KNOWN_PATHS.
Proof. refine (bool_decide_unpack _ _). vm_compute. exact I. Qed.

Lemma parse_result_state (env : Env) (p : string) (plugin : Plugin) :
  parse_result env p = Return (Some plugin) ->
  state plugin = NEW \/ state plugin = OLD.
Proof.
  unfold parse_result.
  destruct (file_text env p) as [text|] eqn:Ht.
  - destruct (KNOWN_PATHS !! p) as [props|] eqn:Hk.
    + rewrite (parse_file_known env [] p text props Ht Hk). cbn [fst].
      intros E. injection E as <-. cbn [state].
      pose proof (map_Forall_lookup_1 _ _ _ _ known_paths_states Hk) as Hs.
      cbn beta in Hs. destruct (props.1.1); auto. congruence.
    + rewrite (parse_file_heuristic env [] p text Ht Hk). cbn [fst].
      repeat match goal with
             | |- context [if ?b then _ else _] => destruct b
             end; intros E; inversion E; auto.
  - rewrite (parse_file_unreadable env [] p Ht). discriminate.
Qed.

Lemma filter_none {A : Type} (f : A -> bool) (l : list A) :
  (forall x, In x l -> f x = false) -> List.filter f l = [].
Proof.
  induction l as [|a l IH]; simpl; intros H; [reflexivity |].
  rewrite (H a (or_introl eq_refl)). apply IH. auto.
Qed.

(** X5.  No record ever has the style [UNKNOWN]: a record [parse_file]
    returns is [NEW] or [OLD], so no line of a report shows the question
    mark, and a run with [--state unknown] prints no record at all. *)
Theorem unknown_is_never_reported (args : Args) (env : Env)
    (out : list string) :
  (forall p plugin out',
     parse_file p env out = (Return (Some plugin), out') ->
     state plugin = NEW \/ state plugin = OLD)
  /\
  (forall plugin,
     In plugin (printed args env) -> state plugin <> UNKNOWN)
  /\
  (args_state args = Some "unknown" ->
   snd (main args env out) = out ++ header args).
Proof.
  assert (Hc : forall plugin,
             In plugin (classified env (filtered_paths env)) ->
             state plugin = NEW \/ state plugin = OLD).
  { intros plugin Hin. apply classified_In in Hin as [_ Hp].
    exact (parse_result_state env _ plugin Hp). }
  split; [| split].
  - intros p plugin out'. rewrite parse_file_pure. intros E.
    injection E as E _. exact (parse_result_state env p plugin E).
  - intros plugin Hin. unfold printed in Hin.
    apply filter_In in Hin as [Hin _]. destruct (Hc plugin Hin); congruence.
  - intros Hs. rewrite main_spec. cbn [snd]. unfold printed.
    rewrite filter_none; [now rewrite app_nil_r |].
    intros plugin Hin. unfold passes_filters. rewrite Hs.
    destruct (Hc plugin Hin) as [-> | ->];
      destruct (match args_kind args with Some _ => _ | None => _ end);
      reflexivity.
Qed.

Lemma unknown_is_never_reported_witness :
  snd (main {| args_kind := None; args_state := Some "unknown";
               args_deprecation_warnings := false;
               args_markdown := false |} env_three [])
    = [] ++ header {| args_kind := None; args_state := Some "unknown";
                      args_deprecation_warnings := false;
                      args_markdown := false |}.
Proof.
  destruct (unknown_is_never_reported
              {| args_kind := None; args_state := Some "unknown";
                 args_deprecation_warnings := false;
                 args_markdown := false |} env_three []) as (_ & _ & H).
  apply H. reflexivity.
Defined.

(** *** The values of the filter options *)

Lemma lower_Kind_name_inj (k1 k2 : Kind) :
  Str.lower (Kind_name k1) = Str.lower (Kind_name k2) -> k1 = k2.
Proof. destruct k1, k2; vm_compute; congruence. Qed.

Lemma lower_State_name_inj (s1 s2 : State) :
  Str.lower (State_name s1) = Str.lower (State_name s2) -> s1 = s2.
Proof. destruct s1, s2; vm_compute; congruence. Qed.

(** X6.  The values the [--kind] and [--state] options accept are the
    lower-case names of the enumeration members, one value per member; a
    run filtered by the values of a kind and of a style prints exactly the
    classified records that have that kind and that style (and the
    deprecation flag, when it is asked for). *)
Theorem choice_filters_select_members (k : option Kind) (st : option State)
    (d m : bool) (env : Env) :
  kind_choices = [ "neovim"; "vim"; "misc" ] /\
  state_choices = [ "unknown"; "new"; "old" ] /\
  (forall k0, In (Str.lower (Kind_name k0)) kind_choices) /\
  (forall s0, In (Str.lower (State_name s0)) state_choices) /\
  forall plugin,
    In plugin
      (printed
         {| args_kind := option_map (fun k0 => Str.lower (Kind_name k0)) k;
            args_state := option_map (fun s0 => Str.lower (State_name s0)) st;
            args_deprecation_warnings := d;
            args_markdown := m |} env) <->
    In plugin (classified env (filtered_paths env)) /\
    (forall k0, k = Some k0 -> kind plugin = k0) /\
    (forall s0, st = Some s0 -> state plugin = s0) /\
    (d = true -> dep_warnings plugin = true).
Proof.
  split; [reflexivity | split; [reflexivity |]].
  split; [intros []; vm_compute; tauto |].
  split; [intros []; vm_compute; tauto |].
  intros plugin. unfold printed. rewrite filter_In, passes_filters_spec.
  cbn [args_kind args_state args_deprecation_warnings].
  split; intros (Hin & Hk & Hs & Hd); (split; [exact Hin |]);
    (split; [| split; [| exact Hd]]).
  - intros k0 ->. symmetry. apply lower_Kind_name_inj. symmetry.
    now apply Hk.
  - intros s0 ->. symmetry. apply lower_State_name_inj. symmetry.
    now apply Hs.
  - intros c Hc. destruct k as [k0|]; [| discriminate Hc].
    injection Hc as <-. now rewrite (Hk k0 eq_refl).
  - intros c Hc. destruct st as [s0|]; [| discriminate Hc].
    injection Hc as <-. now rewrite (Hs s0 eq_refl).
Qed.

Lemma choice_filters_select_members_witness :
  In {| path := "plugins/by-name/p1/default.nix"; state := NEW;
        kind := NEOVIM; dep_warnings := false |}
    (printed
       {| args_kind := option_map (fun k0 => Str.lower (Kind_name k0))
                         (Some NEOVIM);
          args_state := option_map (fun s0 => Str.lower (State_name s0))
                          (Some NEW);
          args_deprecation_warnings := false;
          args_markdown := true |} env_three).
Proof.
  destruct (choice_filters_select_members (Some NEOVIM) (Some NEW) false true
              env_three) as (_ & _ & _ & _ & H).
  apply H. split; [| split; [| split]].
  - vm_compute. tauto.
  - intros k0 E. now injection E.
  - intros s0 E. now injection E.
  - discriminate.
Defined.

(** *** Rendering loses nothing *)

(** X7.  The rendering of a record loses nothing it shows: a table line
    determines the record, and a checklist line determines the path and
    the kind. *)
Theorem rendering_is_injective (p q : Plugin) :
  (Plugin_str p = Plugin_str q -> p = q) /\
  (markdown_line p = markdown_line q -> path p = path q /\ kind p = kind q).
Proof.
  destruct p as [pp ps pk pd], q as [qp qs qk qd]. split.
  - unfold Plugin_str. cbn [path state kind dep_warnings].
    destruct pk, qk, ps, qs, pd, qd; intros H; vm_compute in H;
      congruence.
  - unfold markdown_line. cbn [path kind]. intros H.
    apply (f_equal Str.chars) in H. rewrite !StrFacts.chars_app in H.
    apply app_inv_head in H.
    apply (f_equal (@rev ascii)) in H. rewrite !rev_app_distr in H.
    remember (rev (Str.chars pp)) as x eqn:Ex.
    remember (rev (Str.chars qp)) as y eqn:Ey.
    assert (Hxy : pk = qk /\ x = y); [| clear H].
    { destruct pk, qk; vm_compute in H; try discriminate H;
        (split; [reflexivity | congruence]). }
    destruct Hxy as [Hk ->]. split.
    + apply StrFacts.chars_inj, rev_inj. congruence.
    + exact Hk.
Qed.

Lemma rendering_is_injective_witness :
  {| path := "plugins/by-name/p1/default.nix"; state := NEW; kind := NEOVIM;
     dep_warnings := false |}
  = {| path := "plugins/by-name/p1/default.nix"; state := NEW; kind := NEOVIM;
       dep_warnings := false |}.
Proof.
  destruct (rendering_is_injective
              {| path := "plugins/by-name/p1/default.nix"; state := NEW;
                 kind := NEOVIM; dep_warnings := false |}
              {| path := "plugins/by-name/p1/default.nix"; state := NEW;
                 kind := NEOVIM; dep_warnings := false |}) as [H _].
  apply H. reflexivity.
Defined.

(** *** The override table *)

(** X8.  The module-level loop adds one entry per telescope extension,
    each (NEW, MISC) with the flag of the extension, and replaces no entry
    of the literal table: [KNOWN_PATHS] holds exactly the literal entries
    and the nine generated ones. *)
Theorem known_paths_after_loop (p : string) (props : State * Kind * bool) :
  (KNOWN_PATHS_literal !! p = Some props -> KNOWN_PATHS !! p = Some props)
  /\
  (forall name flag,
     In (name, flag) telescope_extensions ->
     KNOWN_PATHS !! ("plugins/by-name/telescope/extensions/" +:+ name +:+ ".nix")
       = Some (NEW, MISC, flag))
  /\
  (KNOWN_PATHS !! p = Some props ->
   KNOWN_PATHS_literal !! p = Some props \/
   exists name flag,
     In (name, flag) telescope_extensions /\
     p = "plugins/by-name/telescope/extensions/" +:+ name +:+ ".nix" /\
     props = (NEW, MISC, flag))
  /\
  size KNOWN_PATHS = size KNOWN_PATHS_literal + length telescope_extensions.
Proof.
  split; [| split; [| split]].
  - assert (H : map_Forall
                  (fun (q : string) (x : State * Kind * bool) =>
                     KNOWN_PATHS !! q = Some x) KNOWN_PATHS_literal)
      by (refine (bool_decide_unpack _ _); vm_compute; exact I).
    exact (map_Forall_lookup_1 _ _ p props H).
  - assert (H : List.Forall
                  (fun item : string * bool =>
                     KNOWN_PATHS !! ("plugins/by-name/telescope/extensions/"
                                     +:+ fst item +:+ ".nix")
                       = Some (NEW, MISC, snd item)) telescope_extensions)
      by (refine (bool_decide_unpack _ _); vm_compute; exact I).
    intros name flag Hin. rewrite List.Forall_forall in H.
    exact (H (name, flag) Hin).
  - assert (H : map_Forall
                  (fun (q : string) (x : State * Kind * bool) =>
                     KNOWN_PATHS_literal !! q = Some x \/
                     List.Exists
                       (fun item : string * bool =>
                          q = "plugins/by-name/telescope/extensions/"
                              +:+ fst item +:+ ".nix" /\
                          x = (NEW, MISC, snd item)) telescope_extensions)
                  KNOWN_PATHS)
      by (refine (bool_decide_unpack _ _); vm_compute; exact I).
    intros Hp. destruct (map_Forall_lookup_1 _ _ p props H Hp) as [Hl | Hx].
    + now left.
    + right. apply List.Exists_exists in Hx as ([name flag] & Hin & Hq & Hx).
      exists name, flag. split; [exact Hin | split; [exact Hq | exact Hx]].
  - vm_compute. reflexivity.
Qed.

Lemma known_paths_after_loop_witness :
  KNOWN_PATHS !! "plugins/lsp/default.nix" = Some (NEW, MISC, false).
Proof.
  destruct (known_paths_after_loop "plugins/lsp/default.nix"
              (NEW, MISC, false)) as [H _].
  apply H. vm_compute. reflexivity.
Defined.

(** X9.  No key of [KNOWN_PATHS] is caught by the exclusion list: every
    overridden path that the scan finds is among the paths the loop
    iterates. *)
Theorem known_paths_are_not_excluded (env : Env) (p : string)
    (props : State * Kind * bool) :
  KNOWN_PATHS !! p = Some props ->
  _is_excluded p = true /\
  (In p (glob_result env "plugins/**/*.nix") -> In p (filtered_paths env)).
Proof.
  assert (H : map_Forall
                (fun (q : string) (_ : State * Kind * bool) =>
                   _is_excluded q = true) KNOWN_PATHS)
    by (refine (bool_decide_unpack _ _); vm_compute; exact I).
  intros Hp. pose proof (map_Forall_lookup_1 _ _ p props H Hp) as Hex.
  split; [exact Hex |]. intros Hin. apply filtered_paths_In. auto.
Qed.

Lemma known_paths_are_not_excluded_witness :
  _is_excluded "plugins/lsp/default.nix" = true /\
  (In "plugins/lsp/default.nix" (glob_result env_all_markers "plugins/**/*.nix")
   -> In "plugins/lsp/default.nix" (filtered_paths env_all_markers)).
Proof.
  apply (known_paths_are_not_excluded env_all_markers
           "plugins/lsp/default.nix" (NEW, MISC, false)).
  vm_compute. reflexivity.
Defined.

(** *** The patterns are plain containment tests *)

(** X10.  Each search pattern [.*marker] compiled with [re.DOTALL] matches
    a text exactly when [marker in text] holds, so
    [has_deprecation_warnings] is the disjunction of four containment
    tests. *)
Theorem patterns_are_containment_tests (text : string) :
  (forall marker,
     Re.re_match (Re.compile (Re.Cat (Re.Star Re.Dot) (Re.Lit marker)) true)
       text
     = Str.contains marker text)
  /\
  has_deprecation_warnings text
    = existsb (fun marker => Str.contains marker text)
        [ "deprecateExtra"; "mkRemovedOptionModule";
          "mkRenamedOptionModule"; "optionsRenamedToSettings" ].
Proof.
  assert (H : forall marker,
             re_match (compile (Cat (Star Dot) (Lit marker)) true) text
             = Str.contains marker text).
  { intros marker. apply eq_true_iff_eq.
    now rewrite re_match_marker, StrFacts.contains_true. }
  split; [exact H |].
  unfold has_deprecation_warnings, DEPRECATION_REGEX.
  cbn [map existsb]. rewrite !H. reflexivity.
Qed.

(** *** One record per path *)

Lemma NoDup_map_filter {A B : Type} (f : A -> B) (P : A -> bool)
    (l : list A) :
  List.NoDup (map f l) -> List.NoDup (map f (List.filter P l)).
Proof.
  induction l as [|a l IH]; simpl; [trivial |].
  inversion 1 as [|? ? Hnot Hnd]; subst.
  destruct (P a); simpl; [| auto].
  constructor; [| auto].
  intros Hin. apply Hnot. apply in_map_iff in Hin as (x & E & Hx).
  apply filter_In in Hx as [Hx _]. apply in_map_iff. eauto.
Qed.

Lemma filter_all {A : Type} (f : A -> bool) (l : list A) :
  (forall x, In x l -> f x = true) -> List.filter f l = l.
Proof.
  induction l as [|a l IH]; simpl; intros H; [reflexivity |].
  rewrite (H a (or_introl eq_refl)). f_equal. apply IH. auto.
Qed.

(** X11.  When the scan yields no path twice, no path is reported twice;
    and a run without filters that ends normally reports every surviving
    path, so it prints one line per surviving path after the header. *)
Theorem one_record_per_path (args : Args) (env : Env) (out : list string) :
  List.NoDup (glob_result env "plugins/**/*.nix") ->
  List.NoDup (map path (printed args env))
  /\
  (fst (main args env out) = Return tt ->
   args_kind args = None -> args_state args = None ->
   args_deprecation_warnings args = false ->
   map path (printed args env) = filtered_paths env /\
   length (snd (main args env out))
     = length out + length (header args)
       + length (List.filter _is_excluded
                   (glob_result env "plugins/**/*.nix"))).
Proof.
  intros Hnd. split.
  - unfold printed. apply NoDup_map_filter.
    destruct (classified_prefix env (filtered_paths env)) as [rest E].
    assert (Hf : List.NoDup (filtered_paths env)).
    { apply NoDup_ListNoDup. unfold filtered_paths.
      rewrite merge_sort_Permutation. apply NoDup_ListNoDup.
      now apply List.NoDup_filter. }
    rewrite E in Hf. apply NoDup_ListNoDup in Hf.
    apply NoDup_app in Hf as [Hf _]. now apply NoDup_ListNoDup.
  - rewrite main_spec. cbn [fst snd]. intros Hr Hk Hs Hd.
    assert (E : printed args env = classified env (filtered_paths env)).
    { unfold printed. apply filter_all. intros plugin _.
      unfold passes_filters. now rewrite Hk, Hs, Hd. }
    rewrite E, (loop_outcome_normal env _ Hr). split; [reflexivity |].
    rewrite !length_app, length_map.
    rewrite <- (length_map path), (loop_outcome_normal env _ Hr).
    unfold filtered_paths. rewrite merge_sort_Permutation. lia.
Qed.

Lemma one_record_per_path_witness :
  map path (printed args_default env_three) = filtered_paths env_three /\
  length (snd (main args_default env_three []))
    = length (@nil string) + length (header args_default)
      + length (List.filter _is_excluded
                  (glob_result env_three "plugins/**/*.nix")).
Proof.
  destruct (one_record_per_path args_default env_three []) as [_ H].
  - vm_compute. repeat constructor; simpl; intros Hin;
      repeat (destruct Hin as [Hin | Hin]; [discriminate Hin |]);
      exact Hin.
  - apply H; [vm_compute; reflexivity | reflexivity ..].
Defined.

(** *** Containment is preserved by surrounding text *)

Lemma occurs_in_surround (sub s pre post : string) :
  Str.occurs_in sub s -> Str.occurs_in sub (pre +:+ s +:+ post).
Proof.
  intros (a & b & ->). exists (pre +:+ a), (b +:+ post).
  apply StrFacts.chars_inj. rewrite !StrFacts.chars_app.
  now rewrite <- !app_assoc.
Qed.

(** X12.  Both substring tests survive surrounding text: a path in which
    an excluded path occurs is excluded too (so everything below an
    excluded directory is excluded), and a text in which a flagged text
    occurs is flagged too. *)
Theorem containment_survives_surrounding_text (s pre post : string) :
  (_is_excluded s = false -> _is_excluded (pre +:+ s +:+ post) = false)
  /\
  (has_deprecation_warnings s = true ->
   has_deprecation_warnings (pre +:+ s +:+ post) = true).
Proof.
  split.
  - intros H. apply not_true_iff_false. apply not_true_iff_false in H.
    intros Hex. apply H. apply is_excluded_spec.
    intros pattern Hin Hocc.
    apply (proj1 (is_excluded_spec _) Hex pattern Hin).
    now apply occurs_in_surround.
  - rewrite !has_deprecation_warnings_true.
    intros (marker & Hin & Hocc). exists marker.
    split; [exact Hin | now apply occurs_in_surround].
Qed.

Lemma containment_survives_surrounding_text_witness :
  _is_excluded ("plugins/lsp/language-servers/" +:+ "helpers.nix" +:+ ".bak")
    = false.
Proof.
  destruct (containment_survives_surrounding_text "helpers.nix"
              "plugins/lsp/language-servers/" ".bak") as [H _].
  apply H. vm_compute. reflexivity.
Defined.
